(** * sshrv: the reverse-tunnel session of sshnpdpy

    A shallow embedding of [packages/sshnpdpy/lib/sshrv.py].  The class
    [SSHRV] has a constructor and one method, [run].  [run] talks to four
    external collaborators (the two [socket] look-ups, the [SocketConnector]
    class and the [logging] module); they are taken as an environment of
    oracles, each of which may return or raise, and every call made to them
    is recorded in a trace. *)

From Stdlib Require Import String ZArith List Bool Lia.
Import ListNotations.
Open Scope string_scope.
Open Scope Z_scope.

(** ** Python values and exceptions *)

(** Handle of a [SocketConnector] instance. *)
Definition connector := nat.

(** The Python values that flow through [SSHRV]. *)
Inductive value : Type :=
| VNone
| VBool (b : bool)
| VInt (z : Z)
| VStr (s : string)
| VLogger (name : string).

(** Exception classes.  The first four do not derive from [Exception]:
    they sit directly under [BaseException]. *)
Inductive exc_class : Type :=
| KeyboardInterrupt
| SystemExit
| GeneratorExit
| OtherBaseException (name : string)
| OSError
| gaierror
| herror
| ConnectionRefusedError
| TimeoutError
| TypeError
| OtherException (name : string).

Record exc : Type := mkExc { exc_cls : exc_class; exc_msg : string }.

(** [isinstance(e, Exception)]. *)
Definition isinstance_Exception (e : exc) : bool :=
  match exc_cls e with
  | KeyboardInterrupt | SystemExit | GeneratorExit | OtherBaseException _ => false
  | OSError | gaierror | herror | ConnectionRefusedError | TimeoutError
  | TypeError | OtherException _ => true
  end.

(** How a call ends: it returns a value or raises. *)
Inductive outcome (A : Type) : Type :=
| Returned (a : A)
| Raised (e : exc).
Arguments Returned {A} a.
Arguments Raised {A} e.

(** ** The object *)

Record SSHRV : Type := mkSSHRV {
  logger : value;
  host : value;
  destination : value;
  local_ssh_port : value;
  streaming_port : value
}.

Definition set_host (h : value) (self : SSHRV) : SSHRV :=
  {| logger := logger self;
     host := h;
     destination := destination self;
     local_ssh_port := local_ssh_port self;
     streaming_port := streaming_port self |}.

(** [logging.getLogger(name)]: the logger registered under [name]. *)
Definition getLogger (name : string) : value := VLogger name.

(** [SSHRV.__init__(self, destination, port, local_port)]. *)
Definition __init__ (destination port local_port : value) : SSHRV :=
  {| logger := getLogger "sshrv";
     host := VStr "";
     destination := destination;
     local_ssh_port := VInt 22;
     streaming_port := port |}.

(** ** The environment *)

(** The calls [run] makes outside the class, in the order of a trace. *)
Inductive event : Type :=
| EGetHostName
| EGetHostByName (name : string)
| ESocketConnector (local_host local_port remote_destination remote_port : value)
| EConnect (c : connector)
| ELoggingError (msg : string) (arg : exc).

(** What the outside answers.  [connect] may return any value.  The call
    [logging.error(msg, e)] is answered by the logging configuration of the
    process: its handlers and filters decide whether it returns or raises. *)
Record world : Type := mkWorld {
  w_gethostname : outcome string;
  w_gethostbyname : string -> outcome string;
  w_SocketConnector : value -> value -> value -> value -> outcome connector;
  w_connect : connector -> outcome value;
  w_logging_error : string -> exc -> outcome unit
}.

(** ** A state and exception monad

    The state is the object [self] and the trace of external calls. *)
Record state : Type := mkState { st_self : SSHRV; st_trace : list event }.

Definition M (A : Type) : Type := state -> outcome A * state.

Definition ret {A} (a : A) : M A := fun s => (Returned a, s).

Definition bind {A B} (m : M A) (k : A -> M B) : M B :=
  fun s => match m s with
           | (Returned a, s') => k a s'
           | (Raised e, s') => (Raised e, s')
           end.

Notation "x <- m ;; k" := (bind m (fun x => k))
  (at level 61, m at next level, right associativity).
Notation "m ;;; k" := (bind m (fun _ => k))
  (at level 61, right associativity).

(** An external call: log the event, then answer as the world does. *)
Definition call {A} (ev : event) (answer : outcome A) : M A :=
  fun s => (answer, {| st_self := st_self s; st_trace := st_trace s ++ [ev] |}).

Definition getattr (f : SSHRV -> value) : M value :=
  fun s => (Returned (f (st_self s)), s).

Definition setattr_host (h : value) : M unit :=
  fun s => (Returned tt,
            {| st_self := set_host h (st_self s); st_trace := st_trace s |}).

(** [try: body  except Exception as e: handler e].  An exception that is not
    an instance of [Exception] passes through. *)
Definition try_except_Exception {A} (body : M A) (handler : exc -> M A) : M A :=
  fun s => match body s with
           | (Returned a, s') => (Returned a, s')
           | (Raised e, s') =>
               if isinstance_Exception e then handler e s' else (Raised e, s')
           end.

(** [logging.error(msg, e)] on the root logger. *)
Definition logging_error (w : world) (msg : string) (e : exc) : M unit :=
  call (ELoggingError msg e) (w_logging_error w msg e).

(** ** SSHRV.run *)

(** The [try] block. *)
Definition run_body (w : world) : M value :=
  name <- call EGetHostName (w_gethostname w) ;;
  addr <- call (EGetHostByName name) (w_gethostbyname w name) ;;
  setattr_host (VStr addr) ;;;
  a1 <- getattr host ;;
  a2 <- getattr local_ssh_port ;;
  a3 <- getattr destination ;;
  a4 <- getattr streaming_port ;;
  socket_connector <- call (ESocketConnector a1 a2 a3 a4)
                           (w_SocketConnector w a1 a2 a3 a4) ;;
  call (EConnect socket_connector) (w_connect w socket_connector) ;;;
  ret (VBool true).

(** The method.  The handler has no [return]: it falls off the end of the
    function, which yields [None].  Nothing guards the handler: what its
    logging call raises leaves [run]. *)
Definition run (w : world) : M value :=
  try_except_Exception (run_body w)
    (fun e => logging_error w "SSHRV Error: " e ;;; ret VNone).

(** A call of [run] on an object, from an empty trace. *)
Definition invoke (w : world) (self : SSHRV) : outcome value * state :=
  run w {| st_self := self; st_trace := [] |}.

Definition result_of (w : world) (self : SSHRV) : outcome value :=
  fst (invoke w self).
Definition self_after (w : world) (self : SSHRV) : SSHRV :=
  st_self (snd (invoke w self)).
Definition trace_of (w : world) (self : SSHRV) : list event :=
  st_trace (snd (invoke w self)).

(** ** Reading a trace *)

Definition is_gethostname (ev : event) : bool :=
  match ev with EGetHostName => true | _ => false end.
Definition is_gethostbyname (ev : event) : bool :=
  match ev with EGetHostByName _ => true | _ => false end.
Definition is_construction (ev : event) : bool :=
  match ev with ESocketConnector _ _ _ _ => true | _ => false end.
Definition is_connect (ev : event) : bool :=
  match ev with EConnect _ => true | _ => false end.
Definition is_logging (ev : event) : bool :=
  match ev with ELoggingError _ _ => true | _ => false end.

(** Number of events of a kind in a trace. *)
Definition calls (kind : event -> bool) (tr : list event) : nat :=
  length (filter kind tr).

(** ** The three stages of the [try] block, read off the world *)

(** [socket.gethostbyname(socket.gethostname())]. *)
Definition resolution (w : world) : outcome string :=
  match w_gethostname w with
  | Returned name => w_gethostbyname w name
  | Raised e => Raised e
  end.

(** [SocketConnector(self.host, self.local_ssh_port, self.destination,
    self.streaming_port)] once [self.host] holds the address [addr]. *)
Definition construction (w : world) (self : SSHRV) (addr : string)
  : outcome connector :=
  w_SocketConnector w (VStr addr) (local_ssh_port self) (destination self)
                    (streaming_port self).

(** The exception [e] is raised by one of the three stages. *)
Inductive raises_during (w : world) (self : SSHRV) (e : exc) : Prop :=
| raises_in_resolution :
    resolution w = Raised e -> raises_during w self e
| raises_in_construction addr :
    resolution w = Returned addr ->
    construction w self addr = Raised e -> raises_during w self e
| raises_in_connect addr c :
    resolution w = Returned addr ->
    construction w self addr = Returned c ->
    w_connect w c = Raised e -> raises_during w self e.

(** The three stages all return. *)
Definition completes (w : world) (self : SSHRV) : Prop :=
  exists addr c v,
    resolution w = Returned addr /\
    construction w self addr = Returned c /\
    w_connect w c = Returned v.


(** ** Sample sessions and worlds *)

Definition session : SSHRV :=
  __init__ (VStr "rv.example.org") (VInt 4040) (VInt 2222).

Definition w_ok : world :=
  {| w_gethostname := Returned "box";
     w_gethostbyname := fun _ => Returned "10.0.0.5";
     w_SocketConnector := fun _ _ _ _ => Returned 0%nat;
     w_connect := fun _ => Returned VNone;
     w_logging_error := fun _ _ => Returned tt |}.

(** [connect] reports its failure by returning [False]. *)
Definition w_connect_false : world :=
  {| w_gethostname := Returned "box";
     w_gethostbyname := fun _ => Returned "10.0.0.5";
     w_SocketConnector := fun _ _ _ _ => Returned 0%nat;
     w_connect := fun _ => Returned (VBool false);
     w_logging_error := fun _ _ => Returned tt |}.

Definition refused : exc := mkExc ConnectionRefusedError "Connection refused".
Definition no_address : exc := mkExc gaierror "Name or service not known".
Definition ctrl_c : exc := mkExc KeyboardInterrupt "".

Definition w_refused : world :=
  {| w_gethostname := Returned "box";
     w_gethostbyname := fun _ => Returned "10.0.0.5";
     w_SocketConnector := fun _ _ _ _ => Returned 0%nat;
     w_connect := fun _ => Raised refused;
     w_logging_error := fun _ _ => Returned tt |}.

Definition w_unresolved : world :=
  {| w_gethostname := Returned "box";
     w_gethostbyname := fun _ => Raised no_address;
     w_SocketConnector := fun _ _ _ _ => Returned 0%nat;
     w_connect := fun _ => Returned VNone;
     w_logging_error := fun _ _ => Returned tt |}.

(** The user interrupts the process while [connect] is relaying. *)
Definition w_interrupted_connect : world :=
  {| w_gethostname := Returned "box";
     w_gethostbyname := fun _ => Returned "10.0.0.5";
     w_SocketConnector := fun _ _ _ _ => Returned 0%nat;
     w_connect := fun _ => Raised ctrl_c;
     w_logging_error := fun _ _ => Returned tt |}.


(** ... while the address is being looked up. *)
Definition w_interrupted_lookup : world :=
  {| w_gethostname := Returned "box";
     w_gethostbyname := fun _ => Raised ctrl_c;
     w_SocketConnector := fun _ _ _ _ => Returned 0%nat;
     w_connect := fun _ => Returned VNone;
     w_logging_error := fun _ _ => Returned tt |}.

(** The machine has no host name to give. *)
Definition no_hostname : exc := mkExc OSError "gethostname failed".

Definition w_no_hostname : world :=
  {| w_gethostname := Raised no_hostname;
     w_gethostbyname := fun _ => Returned "10.0.0.5";
     w_SocketConnector := fun _ _ _ _ => Returned 0%nat;
     w_connect := fun _ => Returned VNone;
     w_logging_error := fun _ _ => Returned tt |}.

(** The connector cannot be built: the local service refuses. *)
Definition w_no_connector : world :=
  {| w_gethostname := Returned "box";
     w_gethostbyname := fun _ => Returned "10.0.0.5";
     w_SocketConnector := fun _ _ _ _ => Raised refused;
     w_connect := fun _ => Returned VNone;
     w_logging_error := fun _ _ => Returned tt |}.

(** What [logging.error] raises when the record cannot be formatted and a
    handler of the process does not keep the error to itself. *)
Definition format_error : exc :=
  mkExc TypeError "not all arguments converted during string formatting".

(** A refused connection in a process whose logging raises. *)
Definition w_refused_strict_logging : world :=
  {| w_gethostname := Returned "box";
     w_gethostbyname := fun _ => Returned "10.0.0.5";
     w_SocketConnector := fun _ _ _ _ => Returned 0%nat;
     w_connect := fun _ => Raised refused;
     w_logging_error := fun _ _ => Raised format_error |}.

(** ** The relay connector *)

(** Modelled from the spec: the Relay Connector, class [SocketConnector] of
    [packages/sshnpdpy/lib/socket_connector.py], which [sshrv.py] imports and
    whose source is not at hand.  The model follows sections 4.2 and 5: the
    phases INIT, CONNECTING, RELAYING and CLOSED; once both legs are open, two
    independent copy operations, each of which reads from one socket and then
    writes the exact bytes read to the other, until end-of-stream or an I/O
    error on its source; a read and the write that follows it are two
    suspension points, and as soon as one operation ends both sockets are
    closed, wherever the other operation stands. *)
Inductive phase : Type := INIT | CONNECTING | RELAYING | CLOSED.

(** Why a session is over. *)
Inductive ending : Type :=
| ConnectFailed
| EndOfStreamLocal
| EndOfStreamRemote
| IoError.

(** One leg of the tunnel, seen from the relay: the bytes its peer has sent
    into it and the relay has not read yet, the bytes the relay has read from
    it, and the bytes the relay has written to it. *)
Record leg : Type := mkLeg {
  unread : list Byte.byte;
  taken : list Byte.byte;
  received : list Byte.byte
}.

(** A copy operation between two rounds, or between its read and its
    write. *)
Inductive copier : Type :=
| Waiting
| Holding (bs : list Byte.byte).

Definition held (c : copier) : list Byte.byte :=
  match c with
  | Waiting => []
  | Holding bs => bs
  end.

Record relay : Type := mkRelay {
  relay_phase : phase;
  local_leg : leg;
  remote_leg : leg;
  to_remote : copier;
  to_local : copier;
  ended_by : option ending
}.

(** A leg into which its peer sends the bytes [B]. *)
Definition fresh_leg (B : list Byte.byte) : leg :=
  {| unread := B; taken := []; received := [] |}.

Definition relay_start (B_local B_remote : list Byte.byte) : relay :=
  {| relay_phase := INIT;
     local_leg := fresh_leg B_local;
     remote_leg := fresh_leg B_remote;
     to_remote := Waiting;
     to_local := Waiting;
     ended_by := None |}.

(** A read of [n] bytes from a leg. *)
Definition read_from (n : nat) (l : leg) : list Byte.byte * leg :=
  (firstn n (unread l),
   {| unread := skipn n (unread l);
      taken := taken l ++ firstn n (unread l);
      received := received l |}).

Definition write_to (bs : list Byte.byte) (l : leg) : leg :=
  {| unread := unread l; taken := taken l; received := received l ++ bs |}.

(** The local-to-remote operation reads [n] bytes. *)
Definition read_local (n : nat) (r : relay) : relay :=
  let (bs, src) := read_from n (local_leg r) in
  {| relay_phase := relay_phase r;
     local_leg := src;
     remote_leg := remote_leg r;
     to_remote := Holding bs;
     to_local := to_local r;
     ended_by := ended_by r |}.

(** The local-to-remote operation writes the bytes it holds. *)
Definition write_remote (bs : list Byte.byte) (r : relay) : relay :=
  {| relay_phase := relay_phase r;
     local_leg := local_leg r;
     remote_leg := write_to bs (remote_leg r);
     to_remote := Waiting;
     to_local := to_local r;
     ended_by := ended_by r |}.

(** The remote-to-local operation reads [n] bytes. *)
Definition read_remote (n : nat) (r : relay) : relay :=
  let (bs, src) := read_from n (remote_leg r) in
  {| relay_phase := relay_phase r;
     local_leg := local_leg r;
     remote_leg := src;
     to_remote := to_remote r;
     to_local := Holding bs;
     ended_by := ended_by r |}.

(** The remote-to-local operation writes the bytes it holds. *)
Definition write_local (bs : list Byte.byte) (r : relay) : relay :=
  {| relay_phase := relay_phase r;
     local_leg := write_to bs (local_leg r);
     remote_leg := remote_leg r;
     to_remote := to_remote r;
     to_local := Waiting;
     ended_by := ended_by r |}.

Definition enter (p : phase) (r : relay) : relay :=
  {| relay_phase := p;
     local_leg := local_leg r;
     remote_leg := remote_leg r;
     to_remote := to_remote r;
     to_local := to_local r;
     ended_by := ended_by r |}.

(** Both sockets are closed; what an operation still holds is not written. *)
Definition close (why : ending) (r : relay) : relay :=
  {| relay_phase := CLOSED;
     local_leg := local_leg r;
     remote_leg := remote_leg r;
     to_remote := to_remote r;
     to_local := to_local r;
     ended_by := Some why |}.

(** The moves of the relay.  The two copy operations interleave freely; a
    read returns between one byte and all the unread bytes; an operation
    sees the end of its source only when it has read all of it. *)
Inductive relay_step : relay -> relay -> Prop :=
| step_begin r :
    relay_phase r = INIT -> relay_step r (enter CONNECTING r)
| step_connected r :
    relay_phase r = CONNECTING -> relay_step r (enter RELAYING r)
| step_connect_error r :
    relay_phase r = CONNECTING -> relay_step r (close ConnectFailed r)
| step_read_local r n :
    relay_phase r = RELAYING -> to_remote r = Waiting ->
    (0 < n <= length (unread (local_leg r)))%nat ->
    relay_step r (read_local n r)
| step_write_remote r bs :
    relay_phase r = RELAYING -> to_remote r = Holding bs ->
    relay_step r (write_remote bs r)
| step_read_remote r n :
    relay_phase r = RELAYING -> to_local r = Waiting ->
    (0 < n <= length (unread (remote_leg r)))%nat ->
    relay_step r (read_remote n r)
| step_write_local r bs :
    relay_phase r = RELAYING -> to_local r = Holding bs ->
    relay_step r (write_local bs r)
| step_end_of_stream_local r :
    relay_phase r = RELAYING -> to_remote r = Waiting ->
    unread (local_leg r) = [] ->
    relay_step r (close EndOfStreamLocal r)
| step_end_of_stream_remote r :
    relay_phase r = RELAYING -> to_local r = Waiting ->
    unread (remote_leg r) = [] ->
    relay_step r (close EndOfStreamRemote r)
| step_io_error r :
    relay_phase r = RELAYING -> relay_step r (close IoError r).

(** The states a session can come to from [r0]. *)
Inductive relay_reaches (r0 : relay) : relay -> Prop :=
| reaches_start : relay_reaches r0 r0
| reaches_step r r' :
    relay_reaches r0 r -> relay_step r r' -> relay_reaches r0 r'.

(** What every relay step keeps true of a session whose peers send
    [B_local] and [B_remote]: each leg has received the bytes taken from the
    other but for those still held, the bytes taken from a leg are the first
    of those sent into it, and a session that ended on the end of a stream
    had read that stream to its end and written all of it. *)
Definition relay_inv (B_local B_remote : list Byte.byte) (r : relay) : Prop :=
  (received (remote_leg r) ++ held (to_remote r))%list = taken (local_leg r) /\
  (taken (local_leg r) ++ unread (local_leg r))%list = B_local /\
  (received (local_leg r) ++ held (to_local r))%list = taken (remote_leg r) /\
  (taken (remote_leg r) ++ unread (remote_leg r))%list = B_remote /\
  (relay_phase r <> CLOSED -> ended_by r = None) /\
  (ended_by r = Some EndOfStreamLocal ->
   to_remote r = Waiting /\ unread (local_leg r) = []) /\
  (ended_by r = Some EndOfStreamRemote ->
   to_local r = Waiting /\ unread (remote_leg r) = []).

(** The local-to-remote operation writes what it holds, if anything. *)
Definition flush_remote (r : relay) : relay :=
  match to_remote r with
  | Waiting => r
  | Holding bs => write_remote bs r
  end.

(** The local-to-remote operation carried to the end of its source: it
    writes what it holds, copies what is left unread, and sees the end of the
    stream. *)
Definition drain_local (r : relay) : relay :=
  let r1 := flush_remote r in
  let r2 := match unread (local_leg r1) with
            | [] => r1
            | bs => write_remote bs (read_local (length bs) r1)
            end in
  close EndOfStreamLocal r2.

(** The remote-to-local operation writes what it holds, if anything. *)
Definition flush_local (r : relay) : relay :=
  match to_local r with
  | Waiting => r
  | Holding bs => write_local bs r
  end.

(** The remote-to-local operation carried to the end of its source. *)
Definition drain_remote (r : relay) : relay :=
  let r1 := flush_local r in
  let r2 := match unread (remote_leg r1) with
            | [] => r1
            | bs => write_local bs (read_remote (length bs) r1)
            end in
  close EndOfStreamRemote r2.

(** "PING", as in the first scenario. *)
Definition ping : list Byte.byte := [Byte.x50; Byte.x49; Byte.x4e; Byte.x47].

(** The first scenario, both legs open. *)
Definition ping_relaying : relay :=
  enter RELAYING (enter CONNECTING (relay_start ping [])).

(** ... part of the way: two of the four bytes read from the local leg and
    written to the remote one. *)
Definition ping_half_relayed : relay :=
  write_remote [Byte.x50; Byte.x49] (read_local 2 ping_relaying).

(** ... cut short by an I/O error before anything was copied. *)
Definition ping_broken : relay := close IoError ping_relaying.

(** ... cut short by the end of the remote stream while the local-to-remote
    operation holds two bytes it has read. *)
Definition ping_torn_down : relay :=
  close EndOfStreamRemote (read_local 2 ping_relaying).

(** ** How an invocation ends, stage by stage *)

(** How the handler ends once it holds [e]: with [None] when its logging
    call returns, with what that call raises otherwise. *)
Definition handler_result (w : world) (e : exc) : outcome value :=
  match w_logging_error w "SSHRV Error: " e with
  | Returned _ => Returned VNone
  | Raised e' => Raised e'
  end.

(** The outcome of [run] when the [try] block raised [e] with the object in
    state [self] and the trace [tr]. *)
Definition handled (w : world) (e : exc) (self : SSHRV) (tr : list event)
  : outcome value * state :=
  if isinstance_Exception e
  then (handler_result w e,
        {| st_self := self;
           st_trace := tr ++ [ELoggingError "SSHRV Error: " e] |})
  else (Raised e, {| st_self := self; st_trace := tr |}).

(** The calls of a [try] block up to the construction of the connector. *)
Definition trace_to_construction (self : SSHRV) (name addr : string)
  : list event :=
  [EGetHostName; EGetHostByName name;
   ESocketConnector (VStr addr) (local_ssh_port self) (destination self)
                    (streaming_port self)].

(** The four calls of a [try] block that reaches [connect]. *)
Definition full_trace (self : SSHRV) (name addr : string) (c : connector)
  : list event :=
  (trace_to_construction self name addr ++ [EConnect c])%list.

(** The five ways an invocation can go. *)
Inductive invocation (w : world) (self : SSHRV) : Prop :=
| inv_gethostname_raises e
    (Hname : w_gethostname w = Raised e)
    (Hres : resolution w = Raised e)
    (Hinv : invoke w self = handled w e self [EGetHostName])
| inv_gethostbyname_raises name e
    (Hname : w_gethostname w = Returned name)
    (Haddr : w_gethostbyname w name = Raised e)
    (Hres : resolution w = Raised e)
    (Hinv : invoke w self =
            handled w e self [EGetHostName; EGetHostByName name])
| inv_construction_raises name addr e
    (Hname : w_gethostname w = Returned name)
    (Haddr : w_gethostbyname w name = Returned addr)
    (Hres : resolution w = Returned addr)
    (Hcons : construction w self addr = Raised e)
    (Hinv : invoke w self =
            handled w e (set_host (VStr addr) self)
              (trace_to_construction self name addr))
| inv_connect_raises name addr c e
    (Hname : w_gethostname w = Returned name)
    (Haddr : w_gethostbyname w name = Returned addr)
    (Hres : resolution w = Returned addr)
    (Hcons : construction w self addr = Returned c)
    (Hconn : w_connect w c = Raised e)
    (Hinv : invoke w self =
            handled w e (set_host (VStr addr) self)
              (full_trace self name addr c))
| inv_connect_returns name addr c v
    (Hname : w_gethostname w = Returned name)
    (Haddr : w_gethostbyname w name = Returned addr)
    (Hres : resolution w = Returned addr)
    (Hcons : construction w self addr = Returned c)
    (Hconn : w_connect w c = Returned v)
    (Hinv : invoke w self =
            (Returned (VBool true),
             {| st_self := set_host (VStr addr) self;
                st_trace := full_trace self name addr c |})).

(** * Properties *)

Section Stages.
Variables (w : world) (self : SSHRV).

Lemma invoke_gethostname_raises e :
  w_gethostname w = Raised e ->
  invoke w self = handled w e self [EGetHostName].
Proof.
  intros H.
  unfold invoke, run, try_except_Exception, run_body, logging_error, bind,
    call, ret.
  cbn. rewrite H. unfold handled, handler_result.
  destruct (isinstance_Exception e); [|reflexivity].
  destruct (w_logging_error w "SSHRV Error: " e); reflexivity.
Qed.

Lemma invoke_gethostbyname_raises name e :
  w_gethostname w = Returned name ->
  w_gethostbyname w name = Raised e ->
  invoke w self = handled w e self [EGetHostName; EGetHostByName name].
Proof.
  intros H1 H2.
  unfold invoke, run, try_except_Exception, run_body, logging_error, bind,
    call, ret.
  cbn. rewrite H1, H2. unfold handled, handler_result.
  destruct (isinstance_Exception e); [|reflexivity].
  destruct (w_logging_error w "SSHRV Error: " e); reflexivity.
Qed.

Lemma invoke_construction_raises name addr e :
  w_gethostname w = Returned name ->
  w_gethostbyname w name = Returned addr ->
  construction w self addr = Raised e ->
  invoke w self =
  handled w e (set_host (VStr addr) self) (trace_to_construction self name addr).
Proof.
  unfold construction. intros H1 H2 H3.
  unfold invoke, run, try_except_Exception, run_body, bind, call,
    setattr_host, getattr.
  cbn. rewrite H1, H2. cbn. rewrite H3. unfold handled, handler_result.
  destruct (isinstance_Exception e); [|reflexivity].
  destruct (w_logging_error w "SSHRV Error: " e); reflexivity.
Qed.

Lemma invoke_connect_raises name addr c e :
  w_gethostname w = Returned name ->
  w_gethostbyname w name = Returned addr ->
  construction w self addr = Returned c ->
  w_connect w c = Raised e ->
  invoke w self =
  handled w e (set_host (VStr addr) self) (full_trace self name addr c).
Proof.
  unfold construction. intros H1 H2 H3 H4.
  unfold invoke, run, try_except_Exception, run_body, bind, call,
    setattr_host, getattr.
  cbn. rewrite H1, H2. cbn. rewrite H3. cbn. rewrite H4. unfold handled, handler_result.
  destruct (isinstance_Exception e); [|reflexivity].
  destruct (w_logging_error w "SSHRV Error: " e); reflexivity.
Qed.

Lemma invoke_connect_returns name addr c v :
  w_gethostname w = Returned name ->
  w_gethostbyname w name = Returned addr ->
  construction w self addr = Returned c ->
  w_connect w c = Returned v ->
  invoke w self =
  (Returned (VBool true),
   {| st_self := set_host (VStr addr) self;
      st_trace := full_trace self name addr c |}).
Proof.
  unfold construction. intros H1 H2 H3 H4.
  unfold invoke, run, try_except_Exception, run_body, bind, call,
    setattr_host, getattr.
  cbn. rewrite H1, H2. cbn. rewrite H3. cbn. rewrite H4. reflexivity.
Qed.

Lemma invocation_cases : invocation w self.
Proof.
  destruct (w_gethostname w) as [name|e] eqn:H1.
  2:{ eapply inv_gethostname_raises; eauto using invoke_gethostname_raises.
      unfold resolution. now rewrite H1. }
  assert (Hr : resolution w = w_gethostbyname w name)
    by (unfold resolution; now rewrite H1).
  destruct (w_gethostbyname w name) as [addr|e] eqn:H2.
  2:{ eapply inv_gethostbyname_raises;
        eauto using invoke_gethostbyname_raises. }
  destruct (construction w self addr) as [c|e] eqn:H3.
  2:{ eapply inv_construction_raises;
        eauto using invoke_construction_raises. }
  destruct (w_connect w c) as [v|e] eqn:H4.
  - eapply inv_connect_returns; eauto using invoke_connect_returns.
  - eapply inv_connect_raises; eauto using invoke_connect_raises.
Qed.
End Stages.

(** Reading [handled]. *)
Lemma handled_result w e self tr :
  fst (handled w e self tr) =
  if isinstance_Exception e then handler_result w e else Raised e.
Proof. unfold handled. destruct (isinstance_Exception e); reflexivity. Qed.

Lemma handled_self w e self tr : st_self (snd (handled w e self tr)) = self.
Proof. unfold handled. destruct (isinstance_Exception e); reflexivity. Qed.

Lemma handled_trace w e self tr :
  st_trace (snd (handled w e self tr)) =
  if isinstance_Exception e
  then (tr ++ [ELoggingError "SSHRV Error: " e])%list else tr.
Proof. unfold handled. destruct (isinstance_Exception e); reflexivity. Qed.

(** The handler adds no call other than the one to [logging]. *)
Lemma handled_calls w kind e self tr :
  (forall msg a, kind (ELoggingError msg a) = false) ->
  calls kind (st_trace (snd (handled w e self tr))) = calls kind tr.
Proof.
  intros Hk. rewrite handled_trace. destruct (isinstance_Exception e); trivial.
  unfold calls. rewrite filter_app. cbn. rewrite Hk, app_nil_r. reflexivity.
Qed.

(** The sample worlds, run. *)
Example run_ok :
  invoke w_ok session =
  (Returned (VBool true),
   {| st_self := set_host (VStr "10.0.0.5") session;
      st_trace := [EGetHostName; EGetHostByName "box";
                   ESocketConnector (VStr "10.0.0.5") (VInt 22)
                                    (VStr "rv.example.org") (VInt 4040);
                   EConnect 0%nat] |}).
Proof. reflexivity. Qed.

Example run_refused :
  invoke w_refused session =
  (Returned VNone,
   {| st_self := set_host (VStr "10.0.0.5") session;
      st_trace := [EGetHostName; EGetHostByName "box";
                   ESocketConnector (VStr "10.0.0.5") (VInt 22)
                                    (VStr "rv.example.org") (VInt 4040);
                   EConnect 0%nat;
                   ELoggingError "SSHRV Error: " refused] |}).
Proof. reflexivity. Qed.

Example run_refused_strict_logging :
  invoke w_refused_strict_logging session =
  (Raised format_error,
   {| st_self := set_host (VStr "10.0.0.5") session;
      st_trace := [EGetHostName; EGetHostByName "box";
                   ESocketConnector (VStr "10.0.0.5") (VInt 22)
                                    (VStr "rv.example.org") (VInt 4040);
                   EConnect 0%nat;
                   ELoggingError "SSHRV Error: " refused] |}).
Proof. reflexivity. Qed.

Example run_unresolved :
  invoke w_unresolved session =
  (Returned VNone,
   {| st_self := session;
      st_trace := [EGetHostName; EGetHostByName "box";
                   ELoggingError "SSHRV Error: " no_address] |}).
Proof. reflexivity. Qed.

Example run_interrupted :
  invoke w_interrupted_lookup session =
  (Raised ctrl_c,
   {| st_self := session;
      st_trace := [EGetHostName; EGetHostByName "box"] |}).
Proof. reflexivity. Qed.

(** An exception raised by a stage reaches the handler, with a trace that
    holds no call to [logging] yet. *)
Lemma raises_during_handled w self e :
  raises_during w self e ->
  exists self' tr,
    invoke w self = handled w e self' tr /\ calls is_logging tr = 0%nat.
Proof.
  intros Hr.
  destruct (invocation_cases w self);
    destruct Hr as [H1|a H1 H2|a k H1 H2 H3];
    rewrite Hres in H1; try discriminate;
    injection H1 as <-;
    try (rewrite Hcons in H2; try discriminate; injection H2 as <-);
    try (rewrite Hconn in H3; try discriminate; injection H3 as <-);
    rewrite Hinv; eexists _, _; (split; [reflexivity|reflexivity]).
Qed.

Lemma raises_during_not_completes w self e :
  raises_during w self e -> ~ completes w self.
Proof.
  intros Hr (addr & c & v & H1 & H2 & H3).
  destruct Hr as [R1|a R1 R2|a k R1 R2 R3]; congruence.
Qed.

(** Every invocation either completes its three stages or has one of them
    raise. *)
Lemma completes_or_raises w self :
  completes w self \/ exists e, raises_during w self e.
Proof.
  destruct (invocation_cases w self).
  - right; exists e. now apply raises_in_resolution.
  - right; exists e. now apply raises_in_resolution.
  - right; exists e. now apply raises_in_construction with addr.
  - right; exists e. now apply raises_in_connect with addr c.
  - left. now exists addr, c, v.
Qed.

Lemma completes_result w self :
  completes w self -> result_of w self = Returned (VBool true).
Proof.
  intros (a & k & v & H1 & H2 & H3).
  destruct (invocation_cases w self); unfold result_of; rewrite Hinv;
    solve [reflexivity | congruence].
Qed.

Lemma raises_result w self e :
  raises_during w self e ->
  result_of w self =
  if isinstance_Exception e then handler_result w e else Raised e.
Proof.
  intros Hr. destruct (raises_during_handled _ _ _ Hr) as (s' & tr & Hi & _).
  unfold result_of. rewrite Hi. apply handled_result.
Qed.

(** ** The constructor *)

(** C1. Whatever [destination], [port] and [local_port] are passed to the
    constructor, the attribute [local_ssh_port] of the new object is 22, and
    no attribute of the object depends on [local_port]. *)
Theorem init_ignores_local_port (destination port local_port : value) :
  local_ssh_port (__init__ destination port local_port) = VInt 22 /\
  forall local_port',
    __init__ destination port local_port' = __init__ destination port local_port.
Proof. split; [reflexivity | intros lp'; reflexivity]. Qed.

(** ** Exceptions *)

(** C2, as stated, fails: an interrupt that arrives while [connect] is
    running is not an instance of [Exception], goes past the handler and
    leaves [run] as an exception. *)
Lemma run_lets_KeyboardInterrupt_through :
  raises_during w_interrupted_connect session ctrl_c /\
  result_of w_interrupted_connect session = Raised ctrl_c /\
  calls is_logging (trace_of w_interrupted_connect session) = 0%nat /\
  ~ (forall w self, exists v, result_of w self = Returned v).
Proof.
  split; [|split; [|split]].
  - apply raises_in_connect with "10.0.0.5"%string 0%nat; reflexivity.
  - reflexivity.
  - reflexivity.
  - intros H. destruct (H w_interrupted_connect session) as [v Hv].
    discriminate Hv.
Qed.

(** C2, amended. In every invocation of [run], an instance of [Exception]
    raised by the resolution, the construction or the connect is caught and
    not re-raised: once the handler's logging call has returned, [run]
    returns (with [None]).  As long as the logging call returns, an exception
    that leaves [run] is not an instance of [Exception] and was raised by one
    of the three stages; such an exception is never caught. *)
Theorem run_catches_Exception (w : world) (self : SSHRV) :
  (forall e, raises_during w self e -> isinstance_Exception e = true ->
             w_logging_error w "SSHRV Error: " e = Returned tt ->
             result_of w self = Returned VNone) /\
  (forall e, result_of w self = Raised e ->
             (forall e0, raises_during w self e0 ->
                         w_logging_error w "SSHRV Error: " e0 = Returned tt) ->
             isinstance_Exception e = false /\ raises_during w self e) /\
  (forall e, raises_during w self e -> isinstance_Exception e = false ->
             result_of w self = Raised e).
Proof.
  split; [|split].
  - intros e Hr Hk Hlog.
    rewrite (raises_result _ _ _ Hr), Hk. unfold handler_result.
    rewrite Hlog. reflexivity.
  - intros e He Hlog.
    destruct (completes_or_raises w self) as [Hc|[e' Hr]].
    + rewrite (completes_result _ _ Hc) in He. discriminate.
    + rewrite (raises_result _ _ _ Hr) in He.
      destruct (isinstance_Exception e') eqn:Hk.
      * unfold handler_result in He. rewrite (Hlog _ Hr) in He. discriminate.
      * injection He as <-. now split.
  - intros e Hr Hk. rewrite (raises_result _ _ _ Hr), Hk. reflexivity.
Qed.

(** A refused connection: caught, [None]. *)
Lemma run_catches_Exception_witness :
  result_of w_refused session = Returned VNone.
Proof.
  apply (proj1 (run_catches_Exception w_refused session) refused).
  - apply raises_in_connect with "10.0.0.5"%string 0%nat; reflexivity.
  - reflexivity.
  - reflexivity.
Defined.

(** ** The value [run] returns *)







(** C10. Once the connector is built, whatever value [connect] returns,
    [run] returns [True]: the value is dropped, so a [connect] that reports
    failure through its result is reported as a success. *)
Theorem run_discards_connect_result
  (w : world) (self : SSHRV) (addr : string) (c : connector) (v : value) :
  resolution w = Returned addr ->
  construction w self addr = Returned c ->
  w_connect w c = Returned v ->
  result_of w self = Returned (VBool true).
Proof.
  intros H1 H2 H3. apply completes_result. now exists addr, c, v.
Qed.

(** [connect] returns [False]; [run] returns [True]. *)
Lemma run_discards_connect_result_witness :
  w_connect w_connect_false 0%nat = Returned (VBool false) /\
  result_of w_connect_false session = Returned (VBool true).
Proof.
  split; [reflexivity|].
  apply (run_discards_connect_result w_connect_false session
           "10.0.0.5"%string 0%nat (VBool false)); reflexivity.
Defined.

(** ** The calls [run] makes *)

(** Unfolds the trace or the object of an invocation in the case at hand. *)
Ltac in_stage :=
  unfold trace_of, self_after;
  match goal with Hinv : invoke _ _ = _ |- _ => rewrite Hinv end;
  try rewrite handled_self;
  repeat (rewrite handled_calls by reflexivity).

(** C4. An invocation of [run] calls the connector's [connect] at most
    once; it calls it exactly once when the resolution and the construction
    went through, and then once only, also when that call raises: nothing is
    retried. *)
Theorem run_connects_at_most_once (w : world) (self : SSHRV) :
  (calls is_connect (trace_of w self) <= 1)%nat /\
  (calls is_connect (trace_of w self) = 1%nat <->
   exists addr c,
     resolution w = Returned addr /\ construction w self addr = Returned c) /\
  (forall addr c e,
     resolution w = Returned addr -> construction w self addr = Returned c ->
     w_connect w c = Raised e ->
     calls is_connect (trace_of w self) = 1%nat).
Proof.
  destruct (invocation_cases w self); in_stage; cbn;
    (split; [lia|split]);
    try (intros a k x R1 R2 R3; solve [congruence | reflexivity]);
    (split; [intros Habs; try discriminate Habs
            | intros (a & k & R1 & R2); try congruence]).
  - now exists addr, c.
  - now exists addr, c.
Qed.

(** A refused connection is attempted once. *)
Lemma run_connects_at_most_once_witness :
  calls is_connect (trace_of w_refused session) = 1%nat.
Proof.
  apply (proj2 (proj2 (run_connects_at_most_once w_refused session))
           "10.0.0.5"%string 0%nat refused); reflexivity.
Defined.

(** C5. An invocation of [run] looks the local address up once
    ([gethostname], then [gethostbyname]).  When the look-up returns [addr],
    [self.host] becomes [addr] and the next call builds the connector from
    four arguments, in this order: the address just resolved, the local port,
    the destination and the streaming port; nothing is resolved or built
    after that.  When the constructor returns a connector, the next call is
    its [connect], and there is no other. *)
Theorem run_resolves_constructs_connects (w : world) (self : SSHRV) :
  calls is_gethostname (trace_of w self) = 1%nat /\
  (calls is_gethostbyname (trace_of w self) <= 1)%nat /\
  forall addr, resolution w = Returned addr ->
    host (self_after w self) = VStr addr /\
    exists name rest,
      trace_of w self =
        (EGetHostName :: EGetHostByName name ::
         ESocketConnector (VStr addr) (local_ssh_port self) (destination self)
                          (streaming_port self) :: rest) /\
      calls is_gethostname rest = 0%nat /\
      calls is_gethostbyname rest = 0%nat /\
      calls is_construction rest = 0%nat /\
      (calls is_connect rest <= 1)%nat /\
      forall c, construction w self addr = Returned c ->
        exists log, rest = EConnect c :: log /\ calls is_connect log = 0%nat.
Proof.
  destruct (invocation_cases w self).
  1,2: in_stage; cbn; (split; [reflexivity|split; [lia|]]);
       intros a Ha; congruence.
  all: in_stage; cbn; (split; [reflexivity|split; [lia|]]);
       intros a Ha; assert (a = addr) by congruence; subst a;
       (split; [reflexivity|]); exists name;
       unfold handled, full_trace, trace_to_construction; cbn.
  - destruct (isinstance_Exception e); cbn; eexists;
      (split; [reflexivity|]); cbn;
      repeat (split; [reflexivity || lia|]); intros k Hk; congruence.
  - destruct (isinstance_Exception e); cbn; eexists;
      (split; [reflexivity|]); cbn;
      repeat (split; [reflexivity || lia|]); intros k Hk;
      assert (k = c) by congruence; subst k; eexists; split; reflexivity.
  - eexists; (split; [reflexivity|]); cbn;
      repeat (split; [reflexivity || lia|]); intros k Hk;
      assert (k = c) by congruence; subst k; eexists; split; reflexivity.
Qed.

(** The session of the samples: the connector is built from the resolved
    address, port 22, the destination and the streaming port. *)
Lemma run_resolves_constructs_connects_witness :
  host (self_after w_ok session) = VStr "10.0.0.5" /\
  exists name rest,
    trace_of w_ok session =
      (EGetHostName :: EGetHostByName name ::
       ESocketConnector (VStr "10.0.0.5") (VInt 22) (VStr "rv.example.org")
                        (VInt 4040) :: rest) /\
    calls is_gethostname rest = 0%nat /\
    calls is_gethostbyname rest = 0%nat /\
    calls is_construction rest = 0%nat /\
    (calls is_connect rest <= 1)%nat /\
    forall c, construction w_ok session "10.0.0.5" = Returned c ->
      exists log, rest = EConnect c :: log /\ calls is_connect log = 0%nat.
Proof.
  apply (proj2 (proj2 (run_resolves_constructs_connects w_ok session))
           "10.0.0.5"%string).
  reflexivity.
Defined.

(** A trace of [run] cut before a call that builds or uses the connector:
    what comes before holds the whole look-up. *)
Lemma cut_before_connection name addr (a2 a3 a4 : value) tail pre ev post :
  (EGetHostName :: EGetHostByName name :: ESocketConnector addr a2 a3 a4 :: tail
   = pre ++ ev :: post)%list ->
  is_construction ev = true \/ is_connect ev = true ->
  exists pre', pre = EGetHostName :: EGetHostByName name :: pre'.
Proof.
  intros Hcut Hev.
  destruct pre as [|x pre]; cbn in Hcut.
  { injection Hcut as <- _. cbn in Hev. destruct Hev; discriminate. }
  injection Hcut as <- Hcut.
  destruct pre as [|y pre]; cbn in Hcut.
  { injection Hcut as <- _. cbn in Hev. destruct Hev; discriminate. }
  injection Hcut as <- Hcut.
  now exists pre.
Qed.

(** C6. The look-up comes strictly before anything that touches the
    connector: when the resolution raises, the invocation neither builds a
    connector nor calls [connect]; and in any invocation, a call that builds
    the connector or connects it comes after both look-up calls. *)
Theorem resolution_precedes_connection (w : world) (self : SSHRV) :
  (forall e, resolution w = Raised e ->
             calls is_construction (trace_of w self) = 0%nat /\
             calls is_connect (trace_of w self) = 0%nat) /\
  (forall pre ev post,
     trace_of w self = (pre ++ ev :: post)%list ->
     is_construction ev = true \/ is_connect ev = true ->
     exists name pre', pre = EGetHostName :: EGetHostByName name :: pre').
Proof.
  split.
  - intros e0 He0.
    destruct (invocation_cases w self); try congruence;
      in_stage; split; reflexivity.
  - intros pre ev post Hcut Hev.
    destruct (invocation_cases w self); unfold trace_of in Hcut;
      rewrite Hinv in Hcut; try rewrite handled_trace in Hcut;
      unfold full_trace, trace_to_construction in Hcut; cbn in Hcut;
      try (destruct (isinstance_Exception e); cbn in Hcut);
      try (exists name; eapply cut_before_connection; eassumption).
    all: repeat (destruct pre as [|? pre]; cbn in Hcut;
                 [ injection Hcut; intros; subst; cbn in Hev;
                   destruct Hev; discriminate
                 | injection Hcut as _ Hcut ]);
         try discriminate Hcut.
    all: destruct pre; discriminate Hcut.
Qed.

(** A host name that does not resolve: no connector, no [connect]. *)
Lemma resolution_precedes_connection_witness :
  calls is_construction (trace_of w_unresolved session) = 0%nat /\
  calls is_connect (trace_of w_unresolved session) = 0%nat.
Proof.
  apply (proj1 (resolution_precedes_connection w_unresolved session) no_address).
  reflexivity.
Defined.

(** ** What [run] changes *)

(** C9. Of the five attributes set by the constructor, an invocation of
    [run] leaves [logger], [destination], [local_ssh_port] and
    [streaming_port] as they were, whether it returns or an exception ends
    it; [host] alone may change, and then to the resolved address. *)
Theorem run_modifies_only_host (w : world) (self : SSHRV) :
  logger (self_after w self) = logger self /\
  destination (self_after w self) = destination self /\
  local_ssh_port (self_after w self) = local_ssh_port self /\
  streaming_port (self_after w self) = streaming_port self /\
  (host (self_after w self) = host self \/
   exists addr, resolution w = Returned addr /\
                host (self_after w self) = VStr addr).
Proof.
  destruct (invocation_cases w self); in_stage; cbn;
    repeat (split; [reflexivity|]);
    solve [now left | right; now exists addr].
Qed.

(** ** The relay *)

Lemma relay_reaches_trans r0 r1 r2 :
  relay_reaches r0 r1 -> relay_reaches r1 r2 -> relay_reaches r0 r2.
Proof.
  intros H01 H12. induction H12 as [|r r' _ IH Hstep]; trivial.
  eapply reaches_step; eassumption.
Qed.

(** A read takes the first unread bytes of a leg and leaves the rest in
    their order. *)
Lemma read_from_spec n l :
  fst (read_from n l) = firstn n (unread l) /\
  taken (snd (read_from n l)) = (taken l ++ fst (read_from n l))%list /\
  (taken (snd (read_from n l)) ++ unread (snd (read_from n l)) =
   taken l ++ unread l)%list /\
  received (snd (read_from n l)) = received l.
Proof.
  unfold read_from; cbn. repeat split.
  rewrite <- app_assoc, firstn_skipn. reflexivity.
Qed.

Lemma relay_inv_start B_local B_remote :
  relay_inv B_local B_remote (relay_start B_local B_remote).
Proof.
  unfold relay_inv; cbn. repeat split; trivial; discriminate.
Qed.

Lemma relay_inv_step B_local B_remote r r' :
  relay_inv B_local B_remote r -> relay_step r r' ->
  relay_inv B_local B_remote r'.
Proof.
  intros (I1 & I2 & I3 & I4 & I5 & I6 & I7) Hstep.
  assert (Hopen : relay_phase r <> CLOSED -> ended_by r = None) by exact I5.
  destruct Hstep as [r Hp|r Hp|r Hp|r n Hp Hc Hn|r bs Hp Hc|r n Hp Hc Hn
                    |r bs Hp Hc|r Hp Hc Hu|r Hp Hc Hu|r Hp];
    assert (Hnone : ended_by r = None)
      by (apply Hopen; rewrite Hp; discriminate);
    unfold relay_inv; cbn;
    rewrite ?Hnone in *; rewrite ?Hc in *; cbn in *;
    rewrite ?app_nil_r in *.
  all: try (repeat split; trivial; try discriminate; congruence).
  - (* the local-to-remote operation reads *)
    rewrite I1, <- app_assoc, firstn_skipn.
    repeat split; trivial; discriminate.
  - (* the remote-to-local operation reads *)
    rewrite I3, <- app_assoc, firstn_skipn.
    repeat split; trivial; discriminate.
Qed.

Lemma relay_inv_reaches B_local B_remote r :
  relay_reaches (relay_start B_local B_remote) r ->
  relay_inv B_local B_remote r.
Proof.
  induction 1 as [|r r' _ IH Hstep].
  - apply relay_inv_start.
  - eapply relay_inv_step; eassumption.
Qed.

(** From a relaying state, the local-to-remote operation can be carried to
    the end of its source. *)
Lemma drain_local_reaches r :
  relay_phase r = RELAYING -> relay_reaches r (drain_local r).
Proof.
  intros Hp. unfold drain_local.
  assert (H1 : relay_reaches r (flush_remote r)
               /\ relay_phase (flush_remote r) = RELAYING
               /\ to_remote (flush_remote r) = Waiting).
  { unfold flush_remote. destruct (to_remote r) as [|bs] eqn:Hc.
    - repeat split; trivial. apply reaches_start.
    - repeat split; trivial.
      eapply reaches_step; [apply reaches_start|].
      now apply step_write_remote. }
  destruct H1 as (H1 & P1 & C1). set (r1 := flush_remote r) in *.
  destruct (unread (local_leg r1)) as [|b bs] eqn:Hu.
  - eapply reaches_step; [exact H1|].
    now apply step_end_of_stream_local.
  - set (n := length (b :: bs)).
    assert (Hread : read_local n r1 =
              {| relay_phase := relay_phase r1;
                 local_leg := {| unread := [];
                                 taken := taken (local_leg r1) ++ b :: bs;
                                 received := received (local_leg r1) |};
                 remote_leg := remote_leg r1;
                 to_remote := Holding (b :: bs);
                 to_local := to_local r1;
                 ended_by := ended_by r1 |}).
    { unfold read_local, read_from. rewrite Hu. unfold n.
      rewrite firstn_all, skipn_all. reflexivity. }
    eapply reaches_step; [eapply reaches_step; [eapply reaches_step|]|].
    + exact H1.
    + apply step_read_local with (n := n); trivial.
      rewrite Hu. unfold n. cbn. lia.
    + apply step_write_remote with (bs := b :: bs).
      * rewrite Hread. exact P1.
      * rewrite Hread. reflexivity.
    + apply step_end_of_stream_local.
      * rewrite Hread. exact P1.
      * reflexivity.
      * rewrite Hread. reflexivity.
Qed.

(** ... and so can the remote-to-local operation. *)
Lemma drain_remote_reaches r :
  relay_phase r = RELAYING -> relay_reaches r (drain_remote r).
Proof.
  intros Hp. unfold drain_remote.
  assert (H1 : relay_reaches r (flush_local r)
               /\ relay_phase (flush_local r) = RELAYING
               /\ to_local (flush_local r) = Waiting).
  { unfold flush_local. destruct (to_local r) as [|bs] eqn:Hc.
    - repeat split; trivial. apply reaches_start.
    - repeat split; trivial.
      eapply reaches_step; [apply reaches_start|].
      now apply step_write_local. }
  destruct H1 as (H1 & P1 & C1). set (r1 := flush_local r) in *.
  destruct (unread (remote_leg r1)) as [|b bs] eqn:Hu.
  - eapply reaches_step; [exact H1|].
    now apply step_end_of_stream_remote.
  - set (n := length (b :: bs)).
    assert (Hread : read_remote n r1 =
              {| relay_phase := relay_phase r1;
                 local_leg := local_leg r1;
                 remote_leg := {| unread := [];
                                  taken := taken (remote_leg r1) ++ b :: bs;
                                  received := received (remote_leg r1) |};
                 to_remote := to_remote r1;
                 to_local := Holding (b :: bs);
                 ended_by := ended_by r1 |}).
    { unfold read_remote, read_from. rewrite Hu. unfold n.
      rewrite firstn_all, skipn_all. reflexivity. }
    eapply reaches_step; [eapply reaches_step; [eapply reaches_step|]|].
    + exact H1.
    + apply step_read_remote with (n := n); trivial.
      rewrite Hu. unfold n. cbn. lia.
    + apply step_write_local with (bs := b :: bs).
      * rewrite Hread. exact P1.
      * rewrite Hread. reflexivity.
    + apply step_end_of_stream_remote.
      * rewrite Hread. exact P1.
      * reflexivity.
      * rewrite Hread. reflexivity.
Qed.

(** The first scenario, step by step. *)
Lemma ping_relaying_reaches : relay_reaches (relay_start ping []) ping_relaying.
Proof.
  unfold ping_relaying.
  eapply reaches_step; [eapply reaches_step; [apply reaches_start|]|].
  - now apply step_begin.
  - now apply step_connected.
Qed.

(** C7, as stated, fails in the model of the relay: a session in which
    "PING" is sent into the local leg can end with nothing received by the
    remote leg, on an I/O error, or when the other direction ends while two
    bytes that were read are still to be written. *)
Lemma relay_loses_bytes_at_teardown :
  (relay_reaches (relay_start ping []) ping_broken /\
   relay_phase ping_broken = CLOSED /\
   received (remote_leg ping_broken) = []) /\
  (relay_reaches (relay_start ping []) ping_torn_down /\
   relay_phase ping_torn_down = CLOSED /\
   taken (local_leg ping_torn_down) = [Byte.x50; Byte.x49] /\
   received (remote_leg ping_torn_down) = []) /\
  ~ (forall B_local B_remote r,
       relay_reaches (relay_start B_local B_remote) r ->
       relay_phase r = CLOSED ->
       received (remote_leg r) = B_local).
Proof.
  assert (Hb : relay_reaches (relay_start ping []) ping_broken).
  { eapply reaches_step; [apply ping_relaying_reaches|].
    now apply step_io_error. }
  split; [|split].
  - repeat split; trivial.
  - repeat split; trivial.
    unfold ping_torn_down.
    eapply reaches_step; [eapply reaches_step; [apply ping_relaying_reaches|]|].
    + apply (step_read_local ping_relaying 2);
        [reflexivity|reflexivity|cbn; lia].
    + apply (step_end_of_stream_remote (read_local 2 ping_relaying));
        reflexivity.
  - intros H. specialize (H ping [] ping_broken Hb eq_refl). discriminate H.
Qed.

(** C7, amended. In every state of a relay session, the bytes the remote
    leg has received, followed by those the local-to-remote operation holds
    and those still unread, are the bytes [B_local] sent into the local leg:
    what the remote leg receives is a beginning of [B_local], in the same
    order and unchanged.  It is exactly [B_local] when the session ends on the
    end of the local stream, and a session that is relaying can always be
    brought to that end.  The same holds from the remote leg to the local
    one. *)
Theorem relay_transparent_to_end_of_stream
  (B_local B_remote : list Byte.byte) (r : relay) :
  relay_reaches (relay_start B_local B_remote) r ->
  ((received (remote_leg r) ++ held (to_remote r) ++ unread (local_leg r))%list
   = B_local /\
   (ended_by r = Some EndOfStreamLocal -> received (remote_leg r) = B_local) /\
   (relay_phase r = RELAYING ->
    exists r', relay_reaches r r' /\ ended_by r' = Some EndOfStreamLocal /\
               received (remote_leg r') = B_local)) /\
  ((received (local_leg r) ++ held (to_local r) ++ unread (remote_leg r))%list
   = B_remote /\
   (ended_by r = Some EndOfStreamRemote -> received (local_leg r) = B_remote) /\
   (relay_phase r = RELAYING ->
    exists r', relay_reaches r r' /\ ended_by r' = Some EndOfStreamRemote /\
               received (local_leg r') = B_remote)).
Proof.
  intros Hr.
  assert (Hexact_l : forall x, relay_reaches (relay_start B_local B_remote) x ->
            ended_by x = Some EndOfStreamLocal ->
            received (remote_leg x) = B_local).
  { intros x Hx He.
    destruct (relay_inv_reaches _ _ _ Hx) as (I1 & I2 & _ & _ & _ & I6 & _).
    destruct (I6 He) as [Hc Hu].
    rewrite Hc in I1. rewrite Hu in I2. cbn in I1.
    rewrite app_nil_r in I1, I2. congruence. }
  assert (Hexact_r : forall x, relay_reaches (relay_start B_local B_remote) x ->
            ended_by x = Some EndOfStreamRemote ->
            received (local_leg x) = B_remote).
  { intros x Hx He.
    destruct (relay_inv_reaches _ _ _ Hx) as (_ & _ & I3 & I4 & _ & _ & I7).
    destruct (I7 He) as [Hc Hu].
    rewrite Hc in I3. rewrite Hu in I4. cbn in I3.
    rewrite app_nil_r in I3, I4. congruence. }
  destruct (relay_inv_reaches _ _ _ Hr) as (I1 & I2 & I3 & I4 & _).
  split; (split; [|split]).
  - rewrite app_assoc, I1. exact I2.
  - now apply Hexact_l.
  - intros Hp. exists (drain_local r).
    pose proof (drain_local_reaches r Hp) as Hd.
    split; [exact Hd|split; [reflexivity|]].
    apply Hexact_l; [|reflexivity].
    eapply relay_reaches_trans; eassumption.
  - rewrite app_assoc, I3. exact I4.
  - now apply Hexact_r.
  - intros Hp. exists (drain_remote r).
    pose proof (drain_remote_reaches r Hp) as Hd.
    split; [exact Hd|split; [reflexivity|]].
    apply Hexact_r; [|reflexivity].
    eapply relay_reaches_trans; eassumption.
Qed.

(** Two bytes of "PING" relayed so far: the remote leg holds "PI", and the
    session can still deliver the rest. *)
Lemma relay_transparent_to_end_of_stream_witness :
  received (remote_leg ping_half_relayed) = [Byte.x50; Byte.x49] /\
  (exists r', relay_reaches ping_half_relayed r' /\
              ended_by r' = Some EndOfStreamLocal /\
              received (remote_leg r') = ping).
Proof.
  split; [reflexivity|].
  refine (proj2 (proj2 (proj1
            (relay_transparent_to_end_of_stream ping [] ping_half_relayed _)))
            _).
  - unfold ping_half_relayed.
    eapply reaches_step; [eapply reaches_step; [apply ping_relaying_reaches|]|].
    + apply (step_read_local ping_relaying 2);
        [reflexivity|reflexivity|cbn; lia].
    + apply (step_write_remote (read_local 2 ping_relaying));
        reflexivity.
  - reflexivity.
Defined.

(** * Further properties of [run] *)

(** ** The look-up *)

(** X1. [gethostbyname] is given the very name [gethostname] returned; when
    [gethostname] raises, [gethostbyname] is not called, and neither is
    anything that touches the connector. *)
Theorem gethostbyname_gets_hostname (w : world) (self : SSHRV) :
  (forall name, w_gethostname w = Returned name ->
     exists rest,
       trace_of w self = EGetHostName :: EGetHostByName name :: rest /\
       calls is_gethostbyname rest = 0%nat) /\
  (forall e, w_gethostname w = Raised e ->
     calls is_gethostbyname (trace_of w self) = 0%nat /\
     calls is_construction (trace_of w self) = 0%nat /\
     calls is_connect (trace_of w self) = 0%nat).
Proof.
  split.
  - intros n Hn.
    destruct (invocation_cases w self); try congruence;
      assert (n = name) by congruence; subst n;
      unfold trace_of; rewrite Hinv; try rewrite handled_trace;
      unfold full_trace, trace_to_construction;
      try destruct (isinstance_Exception e); cbn;
      eexists; split; reflexivity.
  - intros e0 He0.
    destruct (invocation_cases w self); try congruence.
    in_stage. repeat split; reflexivity.
Qed.

(** No host name: one call, then the handler. *)
Lemma gethostbyname_gets_hostname_witness :
  (exists rest,
     trace_of w_ok session = EGetHostName :: EGetHostByName "box" :: rest /\
     calls is_gethostbyname rest = 0%nat) /\
  (calls is_gethostbyname (trace_of w_no_hostname session) = 0%nat /\
   calls is_construction (trace_of w_no_hostname session) = 0%nat /\
   calls is_connect (trace_of w_no_hostname session) = 0%nat).
Proof.
  split.
  - apply (proj1 (gethostbyname_gets_hostname w_ok session) "box"%string).
    reflexivity.
  - apply (proj2 (gethostbyname_gets_hostname w_no_hostname session)
             no_hostname).
    reflexivity.
Defined.

(** ** A connector that cannot be built *)

(** X2. When [SocketConnector(...)] raises, the constructor has been called
    once and is not called again, [connect] is never called, and [run] does
    not return [True]: an exception that is not an instance of [Exception]
    leaves [run] as it is, an instance goes to the handler, and [run] ends as
    the handler does ([None] when its logging call returns). *)
Theorem construction_failure_stops_run
  (w : world) (self : SSHRV) (addr : string) (e : exc) :
  resolution w = Returned addr ->
  construction w self addr = Raised e ->
  calls is_construction (trace_of w self) = 1%nat /\
  calls is_connect (trace_of w self) = 0%nat /\
  result_of w self <> Returned (VBool true) /\
  result_of w self =
    (if isinstance_Exception e then handler_result w e else Raised e).
Proof.
  intros Hr Hc.
  assert (Hres : result_of w self =
            (if isinstance_Exception e then handler_result w e else Raised e))
    by (apply raises_result; now apply raises_in_construction with addr).
  destruct (invocation_cases w self); try congruence;
    assert (addr0 = addr) by congruence; subst addr0; try congruence.
  assert (e0 = e) by congruence; subst e0.
  split; [|split; [|split]].
  - in_stage. reflexivity.
  - in_stage. reflexivity.
  - rewrite Hres. unfold handler_result.
    destruct (isinstance_Exception e); [|discriminate].
    destruct (w_logging_error w "SSHRV Error: " e); discriminate.
  - exact Hres.
Qed.

Lemma construction_failure_stops_run_witness :
  calls is_construction (trace_of w_no_connector session) = 1%nat /\
  calls is_connect (trace_of w_no_connector session) = 0%nat /\
  result_of w_no_connector session <> Returned (VBool true) /\
  result_of w_no_connector session =
    (if isinstance_Exception refused
     then handler_result w_no_connector refused else Raised refused).
Proof.
  apply (construction_failure_stops_run w_no_connector session
           "10.0.0.5"%string refused); reflexivity.
Defined.

(** ** The [host] attribute *)

(** X3. After an invocation, [host] holds the resolved address whenever the
    look-up returned one, also when the construction or the connect raised
    afterwards: the assignment is not undone.  When the look-up raised,
    [host] is what it was. *)
Theorem host_after_run (w : world) (self : SSHRV) :
  host (self_after w self) =
  match resolution w with
  | Returned addr => VStr addr
  | Raised _ => host self
  end.
Proof.
  destruct (invocation_cases w self); in_stage; rewrite Hres; reflexivity.
Qed.

(** ** Logging *)

(** X4. An invocation calls [logging.error] at most once, and does so
    exactly when one of the three stages raised an instance of [Exception];
    the call carries the message ["SSHRV Error: "] and that exception, and it
    is the last call of the invocation.  So [run] never returns [None]
    without having made the call, and never makes it when it returns
    [True]. *)
Theorem run_logs_the_caught_exception (w : world) (self : SSHRV) :
  (calls is_logging (trace_of w self) <= 1)%nat /\
  (calls is_logging (trace_of w self) = 1%nat <->
   exists e, raises_during w self e /\ isinstance_Exception e = true) /\
  (forall e, raises_during w self e -> isinstance_Exception e = true ->
     exists tr, trace_of w self = (tr ++ [ELoggingError "SSHRV Error: " e])%list
                /\ calls is_logging tr = 0%nat) /\
  (result_of w self = Returned VNone ->
   calls is_logging (trace_of w self) = 1%nat) /\
  (result_of w self = Returned (VBool true) ->
   calls is_logging (trace_of w self) = 0%nat).
Proof.
  assert (Hcaught : forall e, raises_during w self e ->
            isinstance_Exception e = true ->
            exists tr,
              trace_of w self = (tr ++ [ELoggingError "SSHRV Error: " e])%list
              /\ calls is_logging tr = 0%nat).
  { intros e Hr Hk.
    destruct (raises_during_handled _ _ _ Hr) as (s' & tr & Hi & Hlog).
    exists tr. split; [|exact Hlog].
    unfold trace_of. rewrite Hi, handled_trace, Hk. reflexivity. }
  assert (Hcount : forall e, raises_during w self e ->
            calls is_logging (trace_of w self) =
            if isinstance_Exception e then 1%nat else 0%nat).
  { intros e Hr.
    destruct (raises_during_handled _ _ _ Hr) as (s' & tr & Hi & Hlog).
    unfold trace_of. rewrite Hi, handled_trace.
    destruct (isinstance_Exception e); [|exact Hlog].
    unfold calls in *. rewrite filter_app, length_app, Hlog. reflexivity. }
  assert (Hdone : completes w self ->
            calls is_logging (trace_of w self) = 0%nat).
  { intros (a & k & v & H1 & H2 & H3).
    destruct (invocation_cases w self); try congruence.
    unfold trace_of. rewrite Hinv. reflexivity. }
  destruct (completes_or_raises w self) as [Hc|[e Hr]].
  - rewrite (Hdone Hc). split; [lia|split; [|split; [exact Hcaught|split]]].
    + split; [discriminate|].
      intros (e & Hr & _). now destruct (raises_during_not_completes _ _ _ Hr).
    + rewrite (completes_result _ _ Hc). discriminate.
    + reflexivity.
  - rewrite (Hcount _ Hr). pose proof (raises_result _ _ _ Hr) as Hres.
    unfold handler_result in Hres.
    destruct (isinstance_Exception e) eqn:Hk.
    + split; [lia|split; [|split; [exact Hcaught|split]]].
      * split; [now exists e | reflexivity].
      * reflexivity.
      * rewrite Hres.
        destruct (w_logging_error w "SSHRV Error: " e); discriminate.
    + split; [lia|split; [|split; [exact Hcaught|split]]].
      * split; [discriminate|].
        intros (e' & Hr' & Hk').
        pose proof (raises_result _ _ _ Hr') as Hres'. rewrite Hres in Hres'.
        rewrite Hk' in Hres'. unfold handler_result in Hres'.
        assert (calls is_logging (trace_of w self) = 1%nat)
          by (rewrite (Hcount _ Hr'), Hk'; reflexivity).
        rewrite (Hcount _ Hr), Hk in H. discriminate.
      * rewrite Hres. discriminate.
      * reflexivity.
Qed.

(** A refused connection: the log call comes last, with the exception. *)
Lemma run_logs_the_caught_exception_witness :
  (exists tr,
     trace_of w_refused session =
       (tr ++ [ELoggingError "SSHRV Error: " refused])%list /\
     calls is_logging tr = 0%nat) /\
  calls is_logging (trace_of w_refused session) = 1%nat /\
  calls is_logging (trace_of w_ok session) = 0%nat.
Proof.
  split; [|split].
  - apply (proj1 (proj2 (proj2 (run_logs_the_caught_exception w_refused session)))
             refused).
    + apply raises_in_connect with "10.0.0.5"%string 0%nat; reflexivity.
    + reflexivity.
  - apply (proj1 (proj2 (proj2 (proj2
             (run_logs_the_caught_exception w_refused session))))).
    reflexivity.
  - apply (proj2 (proj2 (proj2 (proj2
             (run_logs_the_caught_exception w_ok session))))).
    reflexivity.
Defined.

(** ** What [run] reads *)

(** X5. The result of [run] and the calls it makes do not depend on the
    [host] and the [logger] the object holds when [run] is entered: [host] is
    overwritten before it is read, and [logger] is never used (the handler
    logs through the [logging] module itself). *)
Theorem run_ignores_host_and_logger
  (w : world) (l1 h1 l2 h2 d lp sp : value) :
  result_of w (mkSSHRV l1 h1 d lp sp) = result_of w (mkSSHRV l2 h2 d lp sp) /\
  trace_of w (mkSSHRV l1 h1 d lp sp) = trace_of w (mkSSHRV l2 h2 d lp sp).
Proof.
  unfold result_of, trace_of, invoke, run, try_except_Exception, run_body,
    logging_error, bind, call, setattr_host, getattr, ret; cbn.
  destruct (w_gethostname w) as [name|e]; cbn.
  2:{ destruct (isinstance_Exception e); [|split; reflexivity];
      destruct (w_logging_error w "SSHRV Error: " e); split; reflexivity. }
  destruct (w_gethostbyname w name) as [addr|e]; cbn.
  2:{ destruct (isinstance_Exception e); [|split; reflexivity];
      destruct (w_logging_error w "SSHRV Error: " e); split; reflexivity. }
  destruct (w_SocketConnector w (VStr addr) lp d sp) as [c|e]; cbn.
  2:{ destruct (isinstance_Exception e); [|split; reflexivity];
      destruct (w_logging_error w "SSHRV Error: " e); split; reflexivity. }
  destruct (w_connect w c) as [v|e]; cbn.
  - split; reflexivity.
  - destruct (isinstance_Exception e); [|split; reflexivity];
      destruct (w_logging_error w "SSHRV Error: " e); split; reflexivity.
Qed.

(** ** The constructor and [run] together *)

(** X6. A session built by the constructor hands port 22 to the connector,
    whatever [local_port] the caller passed: when the look-up returns [addr],
    the connector is built from [addr], 22, the destination and the streaming
    port given to the constructor. *)
Theorem fresh_session_connects_to_port_22
  (w : world) (destination port local_port : value) (addr : string) :
  resolution w = Returned addr ->
  exists name rest,
    trace_of w (__init__ destination port local_port) =
    EGetHostName :: EGetHostByName name ::
    ESocketConnector (VStr addr) (VInt 22) destination port :: rest.
Proof.
  intros Hr.
  destruct (invocation_cases w (__init__ destination port local_port));
    try congruence;
    assert (addr0 = addr) by congruence; subst addr0;
    exists name; unfold trace_of; rewrite Hinv; try rewrite handled_trace;
    unfold full_trace, trace_to_construction;
    try destruct (isinstance_Exception e); cbn; eexists; reflexivity.
Qed.

(** The caller asks for local port 2222 and gets 22. *)
Lemma fresh_session_connects_to_port_22_witness :
  exists name rest,
    trace_of w_refused (__init__ (VStr "rv.example.org") (VInt 4040) (VInt 2222)) =
    EGetHostName :: EGetHostByName name ::
    ESocketConnector (VStr "10.0.0.5") (VInt 22) (VStr "rv.example.org")
                     (VInt 4040) :: rest.
Proof.
  apply (fresh_session_connects_to_port_22 w_refused
           (VStr "rv.example.org") (VInt 4040) (VInt 2222) "10.0.0.5"%string).
  reflexivity.
Defined.

(** ** Running again *)

(** The connector is built from the same arguments after [host] is set. *)
Lemma construction_set_host w self h addr :
  construction w (set_host h self) addr = construction w self addr.
Proof. reflexivity. Qed.

(** X7. Calling [run] again on the object a first call has left, in a
    world that answers as before, ends the same way, makes the same calls
    and leaves the object as the first call left it. *)
Theorem run_again_same (w : world) (self : SSHRV) :
  invoke w (self_after w self) = invoke w self.
Proof.
  destruct (invocation_cases w self); unfold self_after; rewrite Hinv;
    try rewrite handled_self; cbn [snd st_self].
  - rewrite (invoke_gethostname_raises w self e Hname). reflexivity.
  - rewrite (invoke_gethostbyname_raises w self name e Hname Haddr).
    reflexivity.
  - rewrite (invoke_construction_raises w (set_host (VStr addr) self)
               name addr e Hname Haddr Hcons).
    reflexivity.
  - rewrite (invoke_connect_raises w (set_host (VStr addr) self)
               name addr c e Hname Haddr Hcons Hconn).
    reflexivity.
  - rewrite (invoke_connect_returns w (set_host (VStr addr) self)
               name addr c v Hname Haddr Hcons Hconn).
    reflexivity.
Qed.

(** ** A handler that fails *)

(** X8. Nothing guards the handler: when a stage raises an instance of
    [Exception] and the logging call made for it raises in turn, that second
    exception, of whatever class, leaves [run]; the first one is not
    re-raised, and [connect] is not tried again. *)
Theorem handler_failure_leaves_run (w : world) (self : SSHRV) (e e' : exc) :
  raises_during w self e -> isinstance_Exception e = true ->
  w_logging_error w "SSHRV Error: " e = Raised e' ->
  result_of w self = Raised e' /\
  (calls is_logging (trace_of w self) = 1%nat /\
   calls is_connect (trace_of w self) <= 1)%nat.
Proof.
  intros Hr Hk Hlog. split.
  - rewrite (raises_result _ _ _ Hr), Hk. unfold handler_result.
    rewrite Hlog. reflexivity.
  - destruct (raises_during_handled _ _ _ Hr) as (s' & tr & Hi & Hnolog).
    unfold trace_of. rewrite Hi, handled_trace, Hk. unfold calls in *.
    rewrite !filter_app, !length_app, Hnolog. cbn. split; [reflexivity|].
    rewrite Nat.add_0_r.
    assert (Hc : (calls is_connect (trace_of w self) <= 1)%nat).
    { destruct (invocation_cases w self); in_stage; cbn; lia. }
    unfold trace_of in Hc. rewrite Hi, handled_calls in Hc by reflexivity.
    exact Hc.
Qed.

(** A refused connection, and a logging call that raises [TypeError]. *)
Lemma handler_failure_leaves_run_witness :
  result_of w_refused_strict_logging session = Raised format_error /\
  (calls is_logging (trace_of w_refused_strict_logging session) = 1%nat /\
   calls is_connect (trace_of w_refused_strict_logging session) <= 1)%nat.
Proof.
  apply (handler_failure_leaves_run w_refused_strict_logging session
           refused format_error).
  - apply raises_in_connect with "10.0.0.5"%string 0%nat; reflexivity.
  - reflexivity.
  - reflexivity.
Defined.
